(** * Mascot camera page: gesture controller, camera set-up and capture

    A shallow embedding of [src/app/page.tsx].  The page is one React
    component holding three pieces of state ([mascot], [permissionGranted],
    [capturedImage]) and three element references.  Every handler is
    embedded as a function on that state; handlers that act on the platform
    (drawing, console, file save) also return the calls they make.

    TypeScript's [number] is an IEEE 754 binary64 value, so numbers are
    the primitive [float]s and [+], [-], [*], [/] and [sqrt] are the
    correctly rounded operations.

    Left out: [e.preventDefault()] in [handleTouchMove] and the clean-up
    that stops the tracks at unmount (neither touches the state), and the
    markup, of which only the conditions under which a handler is offered
    matter (see [handle]).  Platform calls are taken to return normally. *)

From Stdlib Require Import String List Bool Arith ZArith Lia Floats.
Import ListNotations.

Local Open Scope float_scope.

(** ** Numbers and the two coercions the page relies on *)

Definition number := float.

(** [if (v)] on a [number | null]: [null], [0], [-0] and [NaN] are falsy. *)
Definition truthy (v : option number) : bool :=
  match v with
  | None => false
  | Some d => negb (is_zero d || is_nan d)
  end.

(** A [number | null] used as an operand ([prev.initialDistance!] erases the
    [null] only for the type checker): [null] converts to [0]. *)
Definition toNumber (v : option number) : number :=
  match v with
  | None => 0
  | Some d => d
  end.

(** [Math.pow(v, 2)], taken as the correctly rounded square. *)
Definition pow2 (v : number) : number := v * v.

(** ** The overlay state (type [Mascot]) *)

Record Point := { x : number; y : number }.

Record Mascot := {
  position : Point;
  scale : number;
  initialDistance : option number;
  isDragging : bool;
  isPinching : bool;
  lastPosition : Point
}.

(** The argument of [useState<Mascot>]. *)
Definition initialMascot : Mascot :=
  {| position := {| x := 50; y := 50 |};
     scale := 0.5;
     initialDistance := None;
     isDragging := false;
     isPinching := false;
     lastPosition := {| x := 0; y := 0 |} |}.

(** ** Touch events *)

Record Touch := { clientX : number; clientY : number }.

Record TouchEvent := { touches : list Touch }.

(** [getDistance]: [touches[0]] and [touches[1]] are [undefined] past the
    end of the list. *)
Definition getDistance (ts : list Touch) : number :=
  match nth_error ts 0, nth_error ts 1 with
  | Some touch1, Some touch2 =>
      sqrt (pow2 (clientX touch2 - clientX touch1) +
            pow2 (clientY touch2 - clientY touch1))
  | _, _ => 0
  end.

(** ** The three touch handlers

    Each handler calls [setMascot] with an updater [prev => ...] or does
    not call it at all; the embedding is the function from [prev] to the
    next state (the identity when [setMascot] is not called).

    [handleTouchMove] reads the flags, the drag baseline and the pinch guard
    from [mascot], the state of the render that created the handler, and
    the rest from [prev]. *)

Definition handleTouchStart (e : TouchEvent) (prev : Mascot) : Mascot :=
  if (length (touches e) =? 1)%nat then
    match touches e with
    | touch :: _ =>
        {| position := position prev;
           scale := scale prev;
           initialDistance := initialDistance prev;
           isDragging := true;
           isPinching := isPinching prev;
           lastPosition := {| x := clientX touch; y := clientY touch |} |}
    | [] => prev
    end
  else if (length (touches e) =? 2)%nat then
    {| position := position prev;
       scale := scale prev;
       initialDistance := Some (getDistance (touches e));
       isDragging := isDragging prev;
       isPinching := true;
       lastPosition := lastPosition prev |}
  else prev.

Definition handleTouchMove (mascot : Mascot) (e : TouchEvent) (prev : Mascot)
  : Mascot :=
  if isDragging mascot && (length (touches e) =? 1)%nat then
    match touches e with
    | touch :: _ =>
        let dx := clientX touch - x (lastPosition mascot) in
        let dy := clientY touch - y (lastPosition mascot) in
        {| position := {| x := x (position prev) + dx;
                          y := y (position prev) + dy |};
           scale := scale prev;
           initialDistance := initialDistance prev;
           isDragging := isDragging prev;
           isPinching := isPinching prev;
           lastPosition := {| x := clientX touch; y := clientY touch |} |}
    | [] => prev
    end
  else if isPinching mascot && (length (touches e) =? 2)%nat then
    let newDistance := getDistance (touches e) in
    if truthy (initialDistance mascot) then
      {| position := position prev;
         scale := scale prev * (newDistance / toNumber (initialDistance prev));
         initialDistance := Some newDistance;
         isDragging := isDragging prev;
         isPinching := isPinching prev;
         lastPosition := lastPosition prev |}
    else prev
  else prev.

Definition handleTouchEnd (prev : Mascot) : Mascot :=
  {| position := position prev;
     scale := scale prev;
     initialDistance := None;
     isDragging := false;
     isPinching := false;
     lastPosition := lastPosition prev |}.

(** ** Sequences of touch events

    The component re-renders after each event, so the handler that receives
    the next event was created from the state the previous one produced:
    [mascot] and [prev] are the same state.  A touch-end event carries the
    contacts that remain; [handleTouchEnd] does not look at them. *)

Inductive TouchAction :=
| TouchStart (e : TouchEvent)
| TouchMove (e : TouchEvent)
| TouchEnd (e : TouchEvent).

Definition step (m : Mascot) (a : TouchAction) : Mascot :=
  match a with
  | TouchStart e => handleTouchStart e m
  | TouchMove e => handleTouchMove m e m
  | TouchEnd _ => handleTouchEnd m
  end.

Definition run (m : Mascot) (acts : list TouchAction) : Mascot :=
  fold_left step acts m.

(** The contacts on the surface after an action. *)
Definition contacts (a : TouchAction) : nat :=
  match a with
  | TouchStart e | TouchMove e | TouchEnd e => length (touches e)
  end.

Definition touchAt (cx cy : number) : Touch := {| clientX := cx; clientY := cy |}.
Definition oneTouch (cx cy : number) : TouchEvent :=
  {| touches := [touchAt cx cy] |}.
Definition twoTouches (ax ay bx b_y : number) : TouchEvent :=
  {| touches := [touchAt ax ay; touchAt bx b_y] |}.

(** ** The page state and the elements behind the refs *)

Record Page := {
  mascot : Mascot;
  permissionGranted : option bool;
  capturedImage : option string
}.

Definition initialPage : Page :=
  {| mascot := initialMascot; permissionGranted := None; capturedImage := None |}.

Definition setMascot (f : Mascot -> Mascot) (p : Page) : Page :=
  {| mascot := f (mascot p);
     permissionGranted := permissionGranted p;
     capturedImage := capturedImage p |}.

Definition setPermissionGranted (b : bool) (p : Page) : Page :=
  {| mascot := mascot p;
     permissionGranted := Some b;
     capturedImage := capturedImage p |}.

Definition setCapturedImage (v : option string) (p : Page) : Page :=
  {| mascot := mascot p;
     permissionGranted := permissionGranted p;
     capturedImage := v |}.

(** What [getBoundingClientRect] returns, as far as the page reads it. *)
Record DOMRect := { width : number; height : number }.

(** The video element: its box on screen and the frame it shows. *)
Record Video := { videoRect : DOMRect; currentFrame : nat }.

(** The overlay image element: its box on screen. *)
Record Image := { imageRect : DOMRect }.

Inductive CanvasImageSource :=
| FromVideo (v : Video)
| FromImage (i : Image).

(** A call [context.drawImage(source, dx, dy, dw, dh)]. *)
Inductive DrawCall :=
| DrawImage (source : CanvasImageSource) (dx dy dw dh : number).

(** The canvas element: its pixel dimensions (unsigned integers), the draw
    calls issued on its 2D context since the bitmap was last cleared, and
    whether [getContext('2d')] yields a context ([null] otherwise). *)
Record Canvas := {
  canvasWidth : Z;
  canvasHeight : Z;
  drawn : list DrawCall;
  context2d : bool
}.

(** The three refs; [None] is a ref whose [current] is [null]. *)
Record Refs := {
  videoRef : option Video;
  imageRef : option Image;
  canvasRef : option Canvas
}.

(** *** Assigning and reading [canvas.width] and [canvas.height]

    The attributes are [unsigned long]: an assigned number is truncated
    towards zero and reduced modulo 2^32 (NaN and the infinities give 0), and
    a value above 2^31 - 1 is replaced by the attribute's default.  Assigning
    either dimension clears the bitmap. *)

Definition toUint32 (v : number) : Z :=
  match Prim2SF v with
  | S754_finite s m e => Z.modulo (cond_Zopp s (Z.shiftl (Zpos m) e)) (2 ^ 32)
  | _ => 0%Z
  end.

Definition reflectUnsigned (default : Z) (v : number) : Z :=
  let n := toUint32 v in
  if (n <=? 2147483647)%Z then n else default.

Definition ofUnsigned (n : Z) : number := of_uint63 (Uint63.of_Z n).

Definition setWidth (v : number) (c : Canvas) : Canvas :=
  {| canvasWidth := reflectUnsigned 300 v;
     canvasHeight := canvasHeight c;
     drawn := [];
     context2d := context2d c |}.

Definition setHeight (v : number) (c : Canvas) : Canvas :=
  {| canvasWidth := canvasWidth c;
     canvasHeight := reflectUnsigned 150 v;
     drawn := [];
     context2d := context2d c |}.

Definition drawImage (d : DrawCall) (c : Canvas) : Canvas :=
  {| canvasWidth := canvasWidth c;
     canvasHeight := canvasHeight c;
     drawn := drawn c ++ [d];
     context2d := context2d c |}.

(** ** Camera set-up (the effect run once when the component mounts)

    [setupCamera] is embedded by the calls it makes, in order.  The request
    is [await]ed, so the part after it runs when the request settles; a
    request that never settles never resumes the routine. *)

Inductive Settled :=
| Fulfilled (stream : nat)
| Rejected (err : string).

(** [navigator]: [mediaDevices] may be missing, and so may its
    [getUserMedia]; when present, the request settles one way or the other. *)
Record MediaDevices := { getUserMedia : option Settled }.
Record Navigator := { mediaDevices : option MediaDevices }.

(** The two things [setupCamera] reports with [console.error]. *)
Inductive SetupFailure :=
| Unsupported
| AccessError (err : string).

Inductive SetupCall :=
| ConsoleError (what : SetupFailure)
| KeepStream (stream : nat)
| SetSrcObject (stream : nat)
| SetPermissionGranted (b : bool).

Definition request (navigator : Navigator) : option Settled :=
  match mediaDevices navigator with
  | None => None
  | Some md => getUserMedia md
  end.

Definition setupCamera (navigator : Navigator) (refs : Refs) : list SetupCall :=
  match request navigator with
  | None => [ConsoleError Unsupported; SetPermissionGranted false]
  | Some (Fulfilled stream) =>
      [KeepStream stream] ++
      (match videoRef refs with
       | Some _ => [SetSrcObject stream]
       | None => []
       end) ++
      [SetPermissionGranted true]
  | Some (Rejected err) =>
      [ConsoleError (AccessError err); SetPermissionGranted false]
  end.

(** The state after the calls: only [setPermissionGranted] touches it. *)
Definition applySetupCall (p : Page) (c : SetupCall) : Page :=
  match c with
  | SetPermissionGranted b => setPermissionGranted b p
  | _ => p
  end.

Definition cameraSetupDone (navigator : Navigator) (refs : Refs) (p : Page)
  : Page :=
  fold_left applySetupCall (setupCamera navigator refs) p.

(** The values passed to [setPermissionGranted], in order. *)
Fixpoint permissionWrites (cs : list SetupCall) : list bool :=
  match cs with
  | [] => []
  | SetPermissionGranted b :: cs' => b :: permissionWrites cs'
  | _ :: cs' => permissionWrites cs'
  end.

(** Whether the stream was acquired. *)
Definition acquired (navigator : Navigator) : bool :=
  match request navigator with
  | Some (Fulfilled _) => true
  | _ => false
  end.

(** ** Capture, download and retake *)

Section Capture.

(** The PNG encoding of the bitmap, base64-encoded: a function of the
    canvas, left open. *)
Variable encodePng : Canvas -> string.

(** [canvas.toDataURL('image/png')]: a bitmap without pixels gives
    ["data:,"]. *)
Definition toDataURL (c : Canvas) : string :=
  if (canvasWidth c =? 0)%Z || (canvasHeight c =? 0)%Z then "data:,"%string
  else ("data:image/png;base64," ++ encodePng c)%string.

(** [handleCapture] reads the refs and the rendered [mascot]; it assigns the
    canvas dimensions, draws twice and stores the data URL.  It returns the
    refs (the canvas is changed in place) and the page. *)
Definition handleCapture (refs : Refs) (p : Page) : Refs * Page :=
  match videoRef refs, imageRef refs, canvasRef refs with
  | Some video, Some image, Some canvas =>
      let canvas1 := setWidth (width (videoRect video)) canvas in
      let canvas2 := setHeight (height (videoRect video)) canvas1 in
      if context2d canvas2 then
        let canvas3 :=
          drawImage (DrawImage (FromVideo video) 0 0
                       (ofUnsigned (canvasWidth canvas2))
                       (ofUnsigned (canvasHeight canvas2))) canvas2 in
        let scale := scale (mascot p) in
        let width := width (imageRect image) * scale in
        let height := height (imageRect image) * scale in
        let x := x (position (mascot p)) - width / 2 in
        let y := y (position (mascot p)) - height / 2 in
        let canvas4 := drawImage (DrawImage (FromImage image) x y width height) canvas3 in
        let dataUrl := toDataURL canvas4 in
        ({| videoRef := videoRef refs;
            imageRef := imageRef refs;
            canvasRef := Some canvas4 |},
         setCapturedImage (Some dataUrl) p)
      else
        ({| videoRef := videoRef refs;
            imageRef := imageRef refs;
            canvasRef := Some canvas2 |}, p)
  | _, _, _ => (refs, p)
  end.

(** [if (capturedImage)]: [null] and the empty string are falsy. *)
Definition truthyString (v : option string) : bool :=
  match v with
  | None => false
  | Some s => negb (String.eqb s "")
  end.

(** What [handleDownload] does with the transient link. *)
Inductive LinkCall :=
| CreateLink
| SetHref (url : string)
| SetDownload (name : string)
| AppendChild
| Click
| RemoveChild.

(** [handleDownload] calls no state setter: it returns the page as it is,
    and the calls made on the document. *)
Definition handleDownload (p : Page) : Page * list LinkCall :=
  if truthyString (capturedImage p) then
    match capturedImage p with
    | Some url =>
        (p, [CreateLink; SetHref url; SetDownload "mascot-photo.png";
             AppendChild; Click; RemoveChild])
    | None => (p, [])
    end
  else (p, []).

Definition handleBackToCamera (p : Page) : Page := setCapturedImage None p.

(** ** Events of the page

    Every event is taken with the refs as they are when it arrives.  Events
    are accepted in every state; the page offers fewer of them (a disabled
    button, a screen that is not shown), so every state the page reaches is
    reached here. *)

Inductive UIEvent :=
| OnTouch (a : TouchAction)
| OnCapture
| OnDownload
| OnBackToCamera.

(** The touch handlers of the current render, applied to the page. *)
Definition onTouch (a : TouchAction) (p : Page) : Page :=
  match a with
  | TouchStart e => setMascot (handleTouchStart e) p
  | TouchMove e => setMascot (handleTouchMove (mascot p) e) p
  | TouchEnd _ => setMascot handleTouchEnd p
  end.

Definition handle (p : Page) (ev : Refs * UIEvent) : Page :=
  match snd ev with
  | OnTouch a => onTouch a p
  | OnCapture => snd (handleCapture (fst ev) p)
  | OnDownload => fst (handleDownload p)
  | OnBackToCamera => handleBackToCamera p
  end.

Definition runPage (p : Page) (evs : list (Refs * UIEvent)) : Page :=
  fold_left handle evs p.

(** The states of the page: the mounted one, and what an event or the end
    of the camera set-up makes of a state of the page. *)
Inductive reachable : Page -> Prop :=
| reach_mount : reachable initialPage
| reach_event p ev : reachable p -> reachable (handle p ev)
| reach_setup navigator refs p :
    reachable p -> reachable (cameraSetupDone navigator refs p).

End Capture.

(** ** Gestures, and the formulas the specification gives for them *)

Definition pointOf (t : Touch) : Point := {| x := clientX t; y := clientY t |}.

(** A drag: a touch-start with one contact, then single-touch moves. *)
Definition dragGesture (start : Touch) (moves : list Touch) : list TouchAction :=
  TouchStart {| touches := [start] |} ::
  map (fun t => TouchMove {| touches := [t] |}) moves.

(** Position and baseline after the moves of a drag: every move adds its
    delta from the baseline to the position and becomes the baseline. *)
Fixpoint translate (pos base : Point) (moves : list Touch) : Point * Point :=
  match moves with
  | [] => (pos, base)
  | t :: moves' =>
      translate {| x := x pos + (clientX t - x base);
                   y := y pos + (clientY t - y base) |}
                (pointOf t) moves'
  end.






(** A flag of the gesture state read off the events: a touch-start with [n]
    contacts sets it, a touch-end clears it, nothing else changes it. *)
Fixpoint flagAfter (n : nat) (flag : bool) (acts : list TouchAction) : bool :=
  match acts with
  | [] => flag
  | TouchStart e :: acts' =>
      flagAfter n (flag || (length (touches e) =? n)%nat) acts'
  | TouchMove _ :: acts' => flagAfter n flag acts'
  | TouchEnd _ :: acts' => flagAfter n false acts'
  end.

(** Drag only with one contact on the surface, pinch only with two. *)
Definition gestureConsistent (m : Mascot) (n : nat) : bool :=
  implb (isDragging m) (n =? 1)%nat && implb (isPinching m) (n =? 2)%nat.

(** Not below zero: zero, positive or NaN. *)
Definition notNegative (v : number) : bool := negb (v <? 0).

Definition mounted (video : Video) (image : Image) (canvas : Canvas) : Refs :=
  {| videoRef := Some video; imageRef := Some image; canvasRef := Some canvas |}.

(** The same on the specification of binary64 values. *)
Definition sfNotNegative (s : spec_float) : bool :=
  negb (SFltb s (S754_zero false)).


(** The overlay draw call of a capture. *)
Definition overlayDraw (image : Image) (m : Mascot) : DrawCall :=
  let w := width (imageRect image) * scale m in
  let h := height (imageRect image) * scale m in
  DrawImage (FromImage image)
    (x (position m) - w / 2) (y (position m) - h / 2) w h.

(** The canvas a capture leaves when the context is there. *)
Definition capturedCanvas (video : Video) (image : Image) (m : Mascot) : Canvas :=
  let w := reflectUnsigned 300 (width (videoRect video)) in
  let h := reflectUnsigned 150 (height (videoRect video)) in
  {| canvasWidth := w;
     canvasHeight := h;
     drawn := [DrawImage (FromVideo video) 0 0 (ofUnsigned w) (ofUnsigned h);
               overlayDraw image m];
     context2d := true |}.

(** A captured image, when there is one, is a truthy string. *)
Definition capturedTruthy (p : Page) : Prop :=
  truthyString (capturedImage p) =
  match capturedImage p with Some _ => true | None => false end.

(** ** Sample surfaces *)

Definition samplePng (c : Canvas) : string := "iVBORw0KGgo=".

Definition sampleVideo : Video :=
  {| videoRect := {| width := 390; height := 640 |}; currentFrame := 7 |}.

Definition sampleImage : Image :=
  {| imageRect := {| width := 100; height := 80 |} |}.

Definition freshCanvas : Canvas :=
  {| canvasWidth := 300; canvasHeight := 150; drawn := []; context2d := true |}.

(** A canvas whose [getContext('2d')] returns [null]. *)
Definition canvasWithoutContext : Canvas :=
  {| canvasWidth := 300; canvasHeight := 150; drawn := []; context2d := false |}.

(** ** What the page renders, and the handlers it offers

    The component returns the preview screen when [capturedImage] is truthy
    and the camera screen otherwise.  The camera screen shows a notice when
    [permissionGranted === false], another when [permissionGranted === null],
    and its capture button is [disabled={!permissionGranted}].  The touch
    handlers sit on the camera screen, the save and retake buttons on the
    preview screen. *)

Inductive Screen :=
| Preview (src : string)
| Camera (deniedNotice startingNotice captureDisabled : bool).

Definition cameraScreen (p : Page) : Screen :=
  Camera
    (match permissionGranted p with Some false => true | _ => false end)
    (match permissionGranted p with None => true | _ => false end)
    (negb (match permissionGranted p with Some true => true | _ => false end)).

Definition render (p : Page) : Screen :=
  match capturedImage p with
  | Some src => if truthyString (Some src) then Preview src else cameraScreen p
  | None => cameraScreen p
  end.

(** An event reaches its handler only where the handler is rendered, and a
    disabled button is not clicked. *)
Definition offered (p : Page) (ev : UIEvent) : bool :=
  match render p, ev with
  | Preview _, OnDownload => true
  | Preview _, OnBackToCamera => true
  | Camera _ _ captureDisabled, OnCapture => negb captureDisabled
  | Camera _ _ _, OnTouch _ => true
  | _, _ => false
  end.

Section Dispatch.

Variable encodePng : Canvas -> string.

Definition dispatch (p : Page) (ev : Refs * UIEvent) : Page :=
  if offered p (snd ev) then handle encodePng p ev else p.

Definition session (p : Page) (evs : list (Refs * UIEvent)) : Page :=
  fold_left dispatch evs p.

End Dispatch.

(** ** The clean-up of the camera effect

    The effect keeps the stream in its variable [mediaStream] ([null] at
    first, assigned by [setupCamera] when the request is fulfilled); the
    function it returns runs at unmount and stops every track of the stream
    that variable holds then. *)

Section Cleanup.

(** [stream.getTracks()] *)
Variable getTracks : nat -> list nat.

Inductive TrackCall :=
| StopTrack (track : nat).

Definition keptStream (calls : list SetupCall) (mediaStream : option nat)
  : option nat :=
  fold_left (fun ms c => match c with KeepStream s => Some s | _ => ms end)
            calls mediaStream.

Definition cleanup (mediaStream : option nat) : list TrackCall :=
  match mediaStream with
  | Some stream => map StopTrack (getTracks stream)
  | None => []
  end.

(** The two things that happen to the effect, in either order: the awaited
    request settles and [setupCamera] resumes, and the component unmounts. *)
Inductive Lifecycle :=
| Settles
| Unmounts.

(** The effect's variable and the tracks stopped so far. *)
Definition effectStep (navigator : Navigator) (refs : Refs)
    (st : option nat * list TrackCall) (ev : Lifecycle)
  : option nat * list TrackCall :=
  match ev with
  | Settles => (keptStream (setupCamera navigator refs) (fst st), snd st)
  | Unmounts => (fst st, snd st ++ cleanup (fst st))
  end.

Definition runEffect (navigator : Navigator) (refs : Refs)
    (evs : list Lifecycle) : option nat * list TrackCall :=
  fold_left (effectStep navigator refs) evs (None, []).

End Cleanup.

(** ** Kinds of touch events *)

(** Not a touch-start. *)
Definition noTouchStart (a : TouchAction) : bool :=
  match a with
  | TouchStart _ => false
  | _ => true
  end.

(** A touch-start or a move with neither one nor two contacts. *)
Definition otherContactCount (a : TouchAction) : bool :=
  match a with
  | TouchStart e | TouchMove e =>
      negb (length (touches e) =? 1)%nat && negb (length (touches e) =? 2)%nat
  | TouchEnd _ => false
  end.

(** Zero or NaN, on the specification of binary64 values. *)
Definition sfFalsy (v : spec_float) : bool :=
  match v with
  | S754_zero _ | S754_nan => true
  | _ => false
  end.

(** Two zeros, of whatever sign. *)
Definition bothZero (u v : spec_float) : Prop :=
  exists s s', u = S754_zero s /\ v = S754_zero s'.

(** ** The video element and its stream

    The [<video>] element is part of the camera screen.  A render that gives
    the preview screen removes it ([videoRef.current] is [null] then), and a
    later render that gives the camera screen creates a new element.  The
    only assignment of [srcObject] is the one in [setupCamera], to the
    element mounted when the request settles. *)

Inductive VideoElement :=
| NoVideo
| VideoWith (srcObject : option nat).

Definition hasStream (v : VideoElement) : bool :=
  match v with
  | VideoWith (Some _) => true
  | _ => false
  end.

(** The element after the render that follows a change of the page. *)
Definition afterRender (before after : Page) (v : VideoElement) : VideoElement :=
  match render after with
  | Preview _ => NoVideo
  | Camera _ _ _ =>
      match render before with
      | Camera _ _ _ => v
      | Preview _ => VideoWith None
      end
  end.

(** [videoRef.current.srcObject = stream], on the element that is mounted. *)
Definition assignSrcObject (calls : list SetupCall) (v : VideoElement)
  : VideoElement :=
  fold_left (fun v c =>
               match c, v with
               | SetSrcObject stream, VideoWith _ => VideoWith (Some stream)
               | _, _ => v
               end) calls v.

(** At mount: the initial page, and a video element without a stream. *)
Definition mountedPage : Page * VideoElement := (initialPage, VideoWith None).

Definition mountedSetup (navigator : Navigator) (refs : Refs)
    (st : Page * VideoElement) : Page * VideoElement :=
  (cameraSetupDone navigator refs (fst st),
   assignSrcObject (setupCamera navigator refs) (snd st)).

Section Mounted.

Variable encodePng : Canvas -> string.

Definition mountedStep (st : Page * VideoElement) (ev : Refs * UIEvent)
  : Page * VideoElement :=
  let p' := dispatch encodePng (fst st) ev in
  (p', afterRender (fst st) p' (snd st)).

Definition mountedRun (st : Page * VideoElement) (evs : list (Refs * UIEvent))
  : Page * VideoElement :=
  fold_left mountedStep evs st.

End Mounted.

(** A camera whose request is fulfilled with stream 1. *)
Definition grantingNavigator : Navigator :=
  {| mediaDevices := Some {| getUserMedia := Some (Fulfilled 1) |} |}.

(** The refs while the preview screen is shown. *)
Definition noRefs : Refs :=
  {| videoRef := None; imageRef := None; canvasRef := None |}.

(** * Properties of the gesture controller *)

Lemma run_app m acts acts' : run m (acts ++ acts') = run (run m acts) acts'.
Proof. apply fold_left_app. Qed.

Lemma run_cons m a acts : run m (a :: acts) = run (step m a) acts.
Proof. reflexivity. Qed.

(** A single-touch move while the drag flag is set. *)
Lemma drag_move m t :
  isDragging m = true ->
  step m (TouchMove {| touches := [t] |}) =
  {| position := {| x := x (position m) + (clientX t - x (lastPosition m));
                    y := y (position m) + (clientY t - y (lastPosition m)) |};
     scale := scale m;
     initialDistance := initialDistance m;
     isDragging := true;
     isPinching := isPinching m;
     lastPosition := pointOf t |}.
Proof.
  intros Hd. cbn [step]. unfold handleTouchMove. cbn [touches length].
  rewrite Hd. reflexivity.
Qed.

Lemma drag_moves moves : forall m,
  isDragging m = true ->
  let m' := run m (map (fun t => TouchMove {| touches := [t] |}) moves) in
  (position m', lastPosition m') = translate (position m) (lastPosition m) moves
  /\ isDragging m' = true
  /\ scale m' = scale m.
Proof.
  induction moves as [| t moves IH]; intros m Hd.
  - cbn. auto.
  - cbn zeta. cbn [map]. rewrite run_cons, (drag_move _ _ Hd).
    match goal with |- context [run ?s _] => specialize (IH s eq_refl) end.
    cbn zeta in IH. destruct IH as (Hp & Hf & Hs).
    rewrite Hp, Hf, Hs. cbn. auto.
Qed.

(** C1 (as amended).  After a drag (a touch-start with one contact, then
    any single-touch moves) in which every event is handled by the render
    of the state the previous event left ([run] threads the state through
    [step], which gives the move handler that state as its [mascot]), the
    position is the initial position with every move's delta from the
    baseline added to it, one move after the other in binary64 arithmetic,
    and the baseline is the last touch point; the drag flag is set and the
    scale is untouched. *)
Theorem drag_adds_deltas_in_order (m : Mascot) (start : Touch) (moves : list Touch) :
  let m' := run m (dragGesture start moves) in
  (position m', lastPosition m') = translate (position m) (pointOf start) moves
  /\ isDragging m' = true
  /\ scale m' = scale m.
Proof.
  unfold dragGesture. cbn zeta. rewrite run_cons.
  assert (Hs : step m (TouchStart {| touches := [start] |}) =
               {| position := position m; scale := scale m;
                  initialDistance := initialDistance m; isDragging := true;
                  isPinching := isPinching m; lastPosition := pointOf start |})
    by reflexivity.
  rewrite Hs.
  match goal with |- context [run ?s _] =>
    pose proof (drag_moves moves s eq_refl) as H end.
  cbn zeta in H. exact H.
Qed.

(** C1, counterexample.  (1) Two drags from the same touch point to the
    same touch point end at different positions when one passes through a
    point on the way, and the position is not the initial position plus the
    sum of the deltas: the additions round.  (2) When one render handles two
    moves, the second delta is taken from that render's baseline and not
    from the point the first move stored: moves to 10 and to 20 from a
    baseline of 0 end at 80, where adding the deltas from the stored
    baseline gives 70. *)
Lemma drag_depends_on_path :
  let a := touchAt 0 0 in
  let b := touchAt (1 / 10) 0 in
  let c := touchAt (3 / 10) 0 in
  let direct := run initialMascot (dragGesture a [c]) in
  let roundabout := run initialMascot (dragGesture a [b; c]) in
  let dragging := step initialMascot (TouchStart (oneTouch 0 0)) in
  let sameRender :=
    handleTouchMove dragging (oneTouch 20 0)
      (handleTouchMove dragging (oneTouch 10 0) dragging) in
  (x (position direct) =? x (position roundabout)) = false
  /\ (x (position roundabout) =?
      x (position initialMascot) + ((clientX b - clientX a) + (clientX c - clientX b)))
     = false
  /\ lastPosition direct = lastPosition roundabout
  /\ x (position sameRender) = 80
  /\ x (fst (translate (position initialMascot) (pointOf a)
                [touchAt 10 0; touchAt 20 0])) = 70.
Proof. vm_compute. repeat split. Qed.

(** Translation composes: the moves of a drag can be split anywhere. *)
Lemma translate_app moves1 : forall pos base moves2,
  translate pos base (moves1 ++ moves2) =
  translate (fst (translate pos base moves1)) (snd (translate pos base moves1))
    moves2.
Proof.
  induction moves1 as [| t moves1 IH]; intros pos base moves2; [reflexivity |].
  cbn [app translate]. apply IH.
Qed.

(** The example of the specification: one move from (100,100) to (130,115)
    shifts the overlay by (+30,+15). *)
Example drag_example :
  position (run initialMascot (dragGesture (touchAt 100 100) [touchAt 130 115]))
  = {| x := 50 + 30; y := 50 + 15 |}.
Proof. vm_compute. reflexivity. Qed.







(** ** The sign of the scale

    The binary64 operations are read through their specification
    ([Prim2SF], [SFmul], [SFdiv], [SFsqrt]): products, quotients and square
    roots of numbers that are not below zero are not below zero (they may
    be NaN). *)

Lemma notNegative_spec v : notNegative v = sfNotNegative (Prim2SF v).
Proof. unfold notNegative, sfNotNegative. now rewrite ltb_spec. Qed.

Lemma round_keeps_sign mx ex lx :
  sfNotNegative (binary_round_aux prec emax false mx ex lx) = true.
Proof.
  unfold binary_round_aux.
  destruct (shr_fexp prec emax mx ex lx) as [mrs e'].
  destruct (shr_fexp prec emax _ e' loc_Exact) as [mrs' e''].
  destruct (shr_m mrs'); try reflexivity.
  destruct (Z.leb _ _); reflexivity.
Qed.




Lemma notNegative_sqrt v : notNegative (sqrt v) = true.
Proof.
  rewrite notNegative_spec, sqrt_spec. unfold SF64sqrt, SFsqrt.
  destruct (Prim2SF v) as [s | s | | s m e]; try reflexivity.
  - destruct s; reflexivity.
  - destruct s; try reflexivity.
    destruct (SFsqrt_core_binary prec emax (Z.pos m) e) as [[mz ez] lz].
    apply round_keeps_sign.
Qed.



Lemma notNegative_getDistance ts : notNegative (getDistance ts) = true.
Proof.
  unfold getDistance.
  destruct (nth_error ts 0); [destruct (nth_error ts 1) |];
    try reflexivity.
  apply notNegative_sqrt.
Qed.






(** With coordinates so far apart that their squares overflow, the
    distance is infinite and the ratio of two such distances is NaN: the
    scale can be NaN, which is why it is only said not to be below zero. *)
Example scale_can_be_nan :
  let far := twoTouches 0 0 0x1p+600 0 in
  is_nan (scale (run initialMascot [TouchStart far; TouchMove far])) = true.
Proof. vm_compute. reflexivity. Qed.

(** ** The gesture flags *)

Lemma flags_run acts : forall m,
  isDragging (run m acts) = flagAfter 1 (isDragging m) acts /\
  isPinching (run m acts) = flagAfter 2 (isPinching m) acts.
Proof.
  induction acts as [| a acts IH]; intros m; [split; reflexivity |].
  rewrite run_cons. destruct (IH (step m a)) as [Hd Hp].
  rewrite Hd, Hp. clear IH Hd Hp.
  destruct a as [e | e | e]; cbn [step flagAfter].
  - unfold handleTouchStart.
    destruct (touches e) as [| t1 [| t2 [| t3 ts]]]; cbn;
      rewrite ?orb_false_r, ?orb_true_r; split; reflexivity.
  - unfold handleTouchMove.
    destruct (isDragging m && (length (touches e) =? 1)%nat).
    + destruct (touches e); split; reflexivity.
    + destruct (isPinching m && (length (touches e) =? 2)%nat);
        [destruct (truthy (initialDistance m)) |]; split; reflexivity.
  - split; reflexivity.
Qed.

Lemma move_changes_at_most_one m e :
  let m' := step m (TouchMove e) in
  (position m' = position m \/
   (isDragging m = true /\ length (touches e) = 1%nat)) /\
  (scale m' = scale m \/
   (isPinching m = true /\ length (touches e) = 2%nat)) /\
  (position m' = position m \/ scale m' = scale m).
Proof.
  cbn zeta. cbn [step]. unfold handleTouchMove.
  destruct (isDragging m) eqn:Hd, (isPinching m) eqn:Hp;
    destruct (length (touches e) =? 1)%nat eqn:H1;
    destruct (length (touches e) =? 2)%nat eqn:H2;
    try apply Nat.eqb_eq in H1; try apply Nat.eqb_eq in H2;
    cbn [andb];
    try destruct (touches e);
    try destruct (truthy (initialDistance m));
    cbn [position scale]; auto 6.
Qed.

(** C4 (as amended).  In every state reached by touch events, the drag
    flag is set exactly when, since the last touch-end, some touch-start had
    exactly one contact, and the pinch flag exactly when some touch-start had
    exactly two; a move event changes the position only if the drag flag is
    set and it carries exactly one contact, changes the scale only if the
    pinch flag is set and it carries exactly two, and never changes both. *)
Theorem gesture_flags_follow_touch_starts (acts : list TouchAction)
    (e : TouchEvent) :
  let m := run initialMascot acts in
  let m' := step m (TouchMove e) in
  isDragging m = flagAfter 1 false acts
  /\ isPinching m = flagAfter 2 false acts
  /\ (position m' = position m \/
      (isDragging m = true /\ length (touches e) = 1%nat))
  /\ (scale m' = scale m \/
      (isPinching m = true /\ length (touches e) = 2%nat))
  /\ (position m' = position m \/ scale m' = scale m).
Proof.
  cbn zeta.
  destruct (flags_run acts initialMascot) as [Hd Hp].
  split; [exact Hd |]. split; [exact Hp |].
  apply move_changes_at_most_one.
Qed.

(** C4, counterexample.  A finger lands, then a second one: both flags are
    set while two contacts are on the surface. *)
Lemma drag_and_pinch_both_set :
  let second := TouchStart (twoTouches 1 1 3 4) in
  let m := run initialMascot [TouchStart (oneTouch 1 1); second] in
  isDragging m = true
  /\ isPinching m = true
  /\ contacts second = 2%nat
  /\ gestureConsistent m (contacts second) = false.
Proof. vm_compute. repeat split. Qed.

(** ** The guard of the scale update *)

(** X13.  A two-touch move handled by a render whose pinch baseline is
    absent or zero calls no updater: whatever the pending state is, it is
    left as it is, and so is the scale. *)
Theorem falsy_baseline_skips_scale_update (mascot prev : Mascot)
    (e : TouchEvent) :
  length (touches e) = 2%nat ->
  (initialDistance mascot = None \/
   exists d, initialDistance mascot = Some d /\ is_zero d = true) ->
  handleTouchMove mascot e prev = prev
  /\ scale (handleTouchMove mascot e prev) = scale prev.
Proof.
  intros Hl Hb.
  assert (Ht : truthy (initialDistance mascot) = false).
  { destruct Hb as [-> | (d & -> & Hz)]; [reflexivity |].
    unfold truthy. rewrite Hz. reflexivity. }
  assert (H : handleTouchMove mascot e prev = prev).
  { unfold handleTouchMove. rewrite Hl, Ht. cbn [Nat.eqb].
    rewrite andb_false_r. destruct (isPinching mascot); reflexivity. }
  rewrite H. split; reflexivity.
Qed.

(** X13, witness: a pinch that started with both contacts on one point
    (baseline 0), then a move that spreads them. *)
Lemma falsy_baseline_skips_scale_update_witness :
  let m := step initialMascot (TouchStart (twoTouches 7 7 7 7)) in
  initialDistance m = Some 0
  /\ step m (TouchMove (twoTouches 0 0 3 4)) = m.
Proof.
  split; [reflexivity |].
  refine (proj1 (falsy_baseline_skips_scale_update
                   (step initialMascot (TouchStart (twoTouches 7 7 7 7)))
                   (step initialMascot (TouchStart (twoTouches 7 7 7 7)))
                   (twoTouches 0 0 3 4) eq_refl _)).
  right. exists 0. split; reflexivity.
Defined.

(** X14.  When a move is handled by the render of the state it updates,
    it either leaves the scale as it is or multiplies it by the new distance
    over the recorded baseline, and that baseline is neither zero nor
    NaN. *)
Lemma scale_update_divisor m e :
  scale (step m (TouchMove e)) = scale m \/
  exists d, initialDistance m = Some d
            /\ is_zero d = false /\ is_nan d = false
            /\ scale (step m (TouchMove e)) =
               scale m * (getDistance (touches e) / d).
Proof.
  cbn [step]. unfold handleTouchMove.
  destruct (isDragging m && (length (touches e) =? 1)%nat).
  - destruct (touches e); left; reflexivity.
  - destruct (isPinching m && (length (touches e) =? 2)%nat);
      [| left; reflexivity].
    destruct (initialDistance m) as [d |]; [| left; reflexivity].
    destruct (truthy (Some d)) eqn:Ht; [| left; reflexivity].
    right. exists d. unfold truthy in Ht.
    apply negb_true_iff, orb_false_iff in Ht. destruct Ht as [Hz Hn].
    repeat split; assumption.
Qed.

(** * Properties of the page *)

(** On the page a touch event does to [mascot] what [step] does. *)
Lemma onTouch_step a p :
  onTouch a p = setMascot (fun prev => step prev a) p.
Proof. destruct a; reflexivity. Qed.

Section Page.

Variable encodePng : Canvas -> string.

(** ** The permission state *)

Lemma handle_permission p ev :
  permissionGranted (handle encodePng p ev) = permissionGranted p.
Proof.
  destruct ev as [refs [a | | |]]; unfold handle; cbn [snd fst].
  - destruct a; reflexivity.
  - unfold handleCapture.
    destruct (videoRef refs), (imageRef refs), (canvasRef refs);
      try reflexivity.
    destruct (context2d _); reflexivity.
  - unfold handleDownload.
    destruct (truthyString (capturedImage p)); [| reflexivity].
    destruct (capturedImage p); reflexivity.
  - reflexivity.
Qed.

Lemma runPage_permission evs : forall p,
  permissionGranted (runPage encodePng p evs) = permissionGranted p.
Proof.
  induction evs as [| ev evs IH]; intros p; [reflexivity |].
  cbn [runPage fold_left]. fold (runPage encodePng (handle encodePng p ev) evs).
  rewrite IH. apply handle_permission.
Qed.

Lemma setupCamera_writes navigator refs :
  permissionWrites (setupCamera navigator refs) = [acquired navigator].
Proof.
  unfold setupCamera, acquired.
  destruct (request navigator) as [[stream | err] |]; try reflexivity.
  destruct (videoRef refs); reflexivity.
Qed.

Lemma cameraSetupDone_permission navigator refs p :
  permissionGranted (cameraSetupDone navigator refs p) = Some (acquired navigator).
Proof.
  unfold cameraSetupDone, setupCamera, acquired.
  destruct (request navigator) as [[stream | err] |]; try reflexivity.
  destruct (videoRef refs); reflexivity.
Qed.

(** C6.  The permission state is pending at mount and through every event
    that precedes the end of the camera set-up; the set-up writes it exactly
    once, granted if the stream was acquired and denied if the API is
    missing or the request failed; no later event changes it, so it is never
    pending again. *)
Theorem permission_set_exactly_once (navigator : Navigator) (refs : Refs)
    (before after : list (Refs * UIEvent)) :
  let p0 := runPage encodePng initialPage before in
  let p1 := cameraSetupDone navigator refs p0 in
  let p2 := runPage encodePng p1 after in
  permissionGranted initialPage = None
  /\ permissionGranted p0 = None
  /\ permissionWrites (setupCamera navigator refs) = [acquired navigator]
  /\ permissionGranted p1 = Some (acquired navigator)
  /\ permissionGranted p2 = Some (acquired navigator)
  /\ (acquired navigator = true <->
      exists stream, request navigator = Some (Fulfilled stream)).
Proof.
  cbn zeta. rewrite !runPage_permission, cameraSetupDone_permission.
  repeat split; try apply setupCamera_writes.
  - unfold acquired. destruct (request navigator) as [[stream | err] |];
      try discriminate. intros _. exists stream. reflexivity.
  - intros [stream H]. unfold acquired. rewrite H. reflexivity.
Qed.

(** ** Capture *)

Lemma handleCapture_mounted video image canvas p :
  context2d canvas = true ->
  handleCapture encodePng (mounted video image canvas) p =
  (mounted video image (capturedCanvas video image (mascot p)),
   setCapturedImage
     (Some (toDataURL encodePng (capturedCanvas video image (mascot p)))) p).
Proof.
  intros Hc.
  unfold handleCapture, mounted, capturedCanvas, overlayDraw, drawImage,
    setHeight, setWidth.
  cbn [videoRef imageRef canvasRef context2d canvasWidth canvasHeight drawn app].
  rewrite Hc. reflexivity.
Qed.

(** C7 (as amended).  In a capture with the three surfaces mounted and a
    2D context on the canvas, the overlay is drawn, after the video frame,
    with width and height its bounding box times the scale and with origin
    the position minus half that width and half that height; the captured
    image is the data URL of that canvas. *)
Theorem capture_draws_overlay_centred (video : Video) (image : Image)
    (canvas : Canvas) (p : Page) :
  context2d canvas = true ->
  let w := width (imageRect image) * scale (mascot p) in
  let h := height (imageRect image) * scale (mascot p) in
  let result := handleCapture encodePng (mounted video image canvas) p in
  exists canvas',
    canvasRef (fst result) = Some canvas'
    /\ drawn canvas' =
       [DrawImage (FromVideo video) 0 0
          (ofUnsigned (canvasWidth canvas')) (ofUnsigned (canvasHeight canvas'));
        DrawImage (FromImage image)
          (x (position (mascot p)) - w / 2)
          (y (position (mascot p)) - h / 2) w h]
    /\ capturedImage (snd result) = Some (toDataURL encodePng canvas').
Proof.
  intros Hc. cbn zeta. rewrite (handleCapture_mounted _ _ _ _ Hc).
  eexists. repeat split; reflexivity.
Qed.

(** C9.  With any of the three refs empty, capture changes nothing: not the
    page (captured image, overlay, flags, permission) and not the refs. *)
Theorem capture_without_surfaces_is_noop (refs : Refs) (p : Page) :
  videoRef refs = None \/ imageRef refs = None \/ canvasRef refs = None ->
  handleCapture encodePng refs p = (refs, p).
Proof.
  intros H. unfold handleCapture.
  destruct (videoRef refs), (imageRef refs), (canvasRef refs);
    try reflexivity.
  destruct H as [H | [H | H]]; discriminate.
Qed.

(** ** Retake *)

Lemma handleCapture_context_only refs refs' p :
  videoRef refs' = videoRef refs ->
  imageRef refs' = imageRef refs ->
  option_map context2d (canvasRef refs') = option_map context2d (canvasRef refs) ->
  snd (handleCapture encodePng refs' p) = snd (handleCapture encodePng refs p).
Proof.
  intros Hv Hi Hc. unfold handleCapture. rewrite Hv, Hi.
  destruct (videoRef refs) as [video |]; [| reflexivity].
  destruct (imageRef refs) as [image |]; [| reflexivity].
  destruct (canvasRef refs) as [c |], (canvasRef refs') as [c' |];
    try discriminate; [| reflexivity].
  cbn in Hc. injection Hc as Hc.
  unfold drawImage, setHeight, setWidth.
  cbn [context2d canvasWidth canvasHeight drawn app].
  rewrite Hc. reflexivity.
Qed.

Lemma handleCapture_mascot refs p q :
  mascot q = mascot p -> capturedImage p = None -> capturedImage q = None ->
  capturedImage (snd (handleCapture encodePng refs q)) =
  capturedImage (snd (handleCapture encodePng refs p)).
Proof.
  intros Hm Hp Hq. unfold handleCapture.
  destruct (videoRef refs), (imageRef refs), (canvasRef refs);
    cbn [snd]; try congruence.
  destruct (context2d _); cbn [snd setCapturedImage capturedImage];
    [rewrite Hm; reflexivity | congruence].
Qed.

Lemma handleCapture_keeps refs p :
  mascot (snd (handleCapture encodePng refs p)) = mascot p /\
  permissionGranted (snd (handleCapture encodePng refs p)) = permissionGranted p.
Proof.
  unfold handleCapture.
  destruct (videoRef refs), (imageRef refs), (canvasRef refs);
    try (split; reflexivity).
  destruct (context2d _); split; reflexivity.
Qed.

(** [handleCapture] as a function of the refs it is given: retake sets the
    captured image to none and changes nothing else, and a second capture
    given the same video and image surfaces stores what the first one
    stored.  (Whether the page gives the second capture the same video is
    another matter: see the video element below.) *)
Theorem retake_only_clears_capture (refs refs' : Refs) (p : Page) :
  capturedImage p = None ->
  videoRef refs' = videoRef refs ->
  imageRef refs' = imageRef refs ->
  option_map context2d (canvasRef refs') = option_map context2d (canvasRef refs) ->
  let p1 := snd (handleCapture encodePng refs p) in
  let p2 := handleBackToCamera p1 in
  let p3 := snd (handleCapture encodePng refs' p2) in
  capturedImage p2 = None
  /\ mascot p2 = mascot p1 /\ permissionGranted p2 = permissionGranted p1
  /\ mascot p2 = mascot p /\ permissionGranted p2 = permissionGranted p
  /\ capturedImage p3 = capturedImage p1.
Proof.
  intros Hp Hv Hi Hc. cbn zeta.
  destruct (handleCapture_keeps refs p) as [Hm Hg].
  repeat split; try assumption.
  rewrite (handleCapture_context_only refs refs' _ Hv Hi Hc).
  apply handleCapture_mascot; [exact Hm | exact Hp | reflexivity].
Qed.

End Page.

(** ** Download *)

Section Download.

Variable encodePng : Canvas -> string.

Lemma toDataURL_not_empty c : String.eqb (toDataURL encodePng c) "" = false.
Proof.
  unfold toDataURL.
  destruct ((canvasWidth c =? 0)%Z || (canvasHeight c =? 0)%Z); reflexivity.
Qed.

Lemma handle_capturedTruthy p ev :
  capturedTruthy p -> capturedTruthy (handle encodePng p ev).
Proof.
  intros H. destruct ev as [refs [a | | |]]; unfold handle; cbn [snd fst].
  - destruct a; exact H.
  - unfold handleCapture.
    destruct (videoRef refs), (imageRef refs), (canvasRef refs);
      try exact H.
    destruct (context2d _); [| exact H].
    unfold capturedTruthy. cbn [snd setCapturedImage capturedImage truthyString].
    rewrite toDataURL_not_empty. reflexivity.
  - unfold handleDownload.
    destruct (truthyString (capturedImage p)); [| exact H].
    destruct (capturedImage p); exact H.
  - reflexivity.
Qed.

Lemma cameraSetupDone_captured navigator refs p :
  capturedImage (cameraSetupDone navigator refs p) = capturedImage p.
Proof.
  unfold cameraSetupDone, setupCamera.
  destruct (request navigator) as [[stream | err] |]; try reflexivity.
  destruct (videoRef refs); reflexivity.
Qed.

Lemma reachable_capturedTruthy p : reachable encodePng p -> capturedTruthy p.
Proof.
  induction 1 as [| p ev _ IH | navigator refs p _ IH].
  - reflexivity.
  - apply handle_capturedTruthy, IH.
  - unfold capturedTruthy. rewrite cameraSetupDone_captured. exact IH.
Qed.

(** C10.  In every state of the page, download leaves the state as it is;
    without a captured image it does nothing at all, and the link is
    clicked if and only if a captured image is present. *)
Theorem download_only_with_capture (p : Page) :
  reachable encodePng p ->
  fst (handleDownload p) = p
  /\ (capturedImage p = None -> snd (handleDownload p) = [])
  /\ (In Click (snd (handleDownload p)) <-> capturedImage p <> None).
Proof.
  intros Hr. apply reachable_capturedTruthy in Hr.
  unfold capturedTruthy in Hr. unfold handleDownload.
  destruct (capturedImage p) as [url |]; rewrite Hr; cbn [fst snd].
  - repeat split; try discriminate.
    cbn. intuition discriminate.
  - repeat split; try contradiction; intros H; now elim H.
Qed.

End Download.

(** * The page on sample surfaces

    A video shown 390 by 640, an overlay whose box is 100 by 80, and the
    overlay in its initial state: scale 0.5 at (50, 50). *)

(** C7, witness: the overlay is drawn 50 by 40 with origin (25, 30). *)
Lemma capture_draws_overlay_centred_witness :
  let result :=
    handleCapture samplePng (mounted sampleVideo sampleImage freshCanvas)
      initialPage in
  exists canvas',
    canvasRef (fst result) = Some canvas'
    /\ drawn canvas' =
       [DrawImage (FromVideo sampleVideo) 0 0
          (ofUnsigned (canvasWidth canvas')) (ofUnsigned (canvasHeight canvas'));
        DrawImage (FromImage sampleImage) 25 30 50 40]
    /\ capturedImage (snd result) = Some (toDataURL samplePng canvas').
Proof.
  exact (capture_draws_overlay_centred samplePng sampleVideo sampleImage
           freshCanvas initialPage eq_refl).
Defined.

(** C7, counterexample.  With the three surfaces mounted but no 2D context
    on the canvas, capture sets the canvas dimensions and stops: nothing is
    drawn and no image is captured. *)
Lemma capture_without_context_draws_nothing :
  let result :=
    handleCapture samplePng
      (mounted sampleVideo sampleImage canvasWithoutContext) initialPage in
  option_map drawn (canvasRef (fst result)) = Some []
  /\ option_map canvasWidth (canvasRef (fst result)) = Some 390%Z
  /\ snd result = initialPage.
Proof. vm_compute. repeat split. Qed.

(** C9, witness: the video ref is empty. *)
Lemma capture_without_surfaces_is_noop_witness :
  let refs := {| videoRef := None;
                 imageRef := Some sampleImage;
                 canvasRef := Some freshCanvas |} in
  handleCapture samplePng refs initialPage = (refs, initialPage).
Proof.
  exact (capture_without_surfaces_is_noop samplePng
           {| videoRef := None;
              imageRef := Some sampleImage;
              canvasRef := Some freshCanvas |} initialPage
           (or_introl eq_refl)).
Defined.

(** The same on the sample surfaces. *)
Lemma retake_only_clears_capture_witness :
  let refs := mounted sampleVideo sampleImage freshCanvas in
  let p1 := snd (handleCapture samplePng refs initialPage) in
  let p2 := handleBackToCamera p1 in
  let p3 := snd (handleCapture samplePng refs p2) in
  capturedImage p2 = None
  /\ mascot p2 = mascot p1 /\ permissionGranted p2 = permissionGranted p1
  /\ mascot p2 = mascot initialPage
  /\ permissionGranted p2 = permissionGranted initialPage
  /\ capturedImage p3 = capturedImage p1.
Proof.
  exact (retake_only_clears_capture samplePng
           (mounted sampleVideo sampleImage freshCanvas)
           (mounted sampleVideo sampleImage freshCanvas)
           initialPage eq_refl eq_refl eq_refl eq_refl).
Defined.

(** C10, witness: the page after one capture. *)
Lemma download_only_with_capture_witness :
  let refs := mounted sampleVideo sampleImage freshCanvas in
  let p := handle samplePng initialPage (refs, OnCapture) in
  fst (handleDownload p) = p
  /\ (capturedImage p = None -> snd (handleDownload p) = [])
  /\ (In Click (snd (handleDownload p)) <-> capturedImage p <> None).
Proof.
  exact (download_only_with_capture samplePng _
           (reach_event samplePng initialPage
              (mounted sampleVideo sampleImage freshCanvas, OnCapture)
              (reach_mount samplePng))).
Defined.

(** What download does after that capture. *)
Example download_after_capture :
  let refs := mounted sampleVideo sampleImage freshCanvas in
  snd (handleDownload (handle samplePng initialPage (refs, OnCapture)))
  = [CreateLink; SetHref "data:image/png;base64,iVBORw0KGgo=";
     SetDownload "mascot-photo.png"; AppendChild; Click; RemoveChild].
Proof. vm_compute. reflexivity. Qed.

(** * Further properties of the gesture controller *)

(** ** After a touch-end *)

Lemma idle_step m a :
  isDragging m = false -> isPinching m = false -> noTouchStart a = true ->
  step m a = handleTouchEnd m /\ position (step m a) = position m
  \/ step m a = m.
Proof.
  intros Hd Hp Ha. destruct a as [e | e | e]; [discriminate | right | left].
  - cbn [step]. unfold handleTouchMove. rewrite Hd, Hp. reflexivity.
  - split; reflexivity.
Qed.

Lemma handleTouchEnd_idempotent m :
  handleTouchEnd (handleTouchEnd m) = handleTouchEnd m.
Proof. reflexivity. Qed.

(** X1.  Once a touch-end has been handled, moves and further touch-ends
    change nothing until the next touch-start, whatever contacts they carry:
    a finger lifted during a pinch ends the gesture, and the finger that
    stays down does not drag. *)
Theorem moves_ignored_after_touch_end (m : Mascot) (acts : list TouchAction) :
  forallb noTouchStart acts = true ->
  run (handleTouchEnd m) acts = handleTouchEnd m.
Proof.
  induction acts as [| a acts IH]; intros H; [reflexivity |].
  cbn [forallb] in H. apply andb_true_iff in H. destruct H as [Ha H].
  rewrite run_cons.
  destruct (idle_step (handleTouchEnd m) a eq_refl eq_refl Ha) as [[E _] | E];
    rewrite E, ?handleTouchEnd_idempotent; apply IH, H.
Qed.

(** X1, witness: a pinch, one finger lifted, the other keeps moving. *)
Lemma moves_ignored_after_touch_end_witness :
  let pinched :=
    run initialMascot
      [TouchStart (twoTouches 0 0 30 40); TouchMove (twoTouches 0 0 45 60)] in
  run (handleTouchEnd pinched)
      [TouchMove (oneTouch 10 10); TouchMove (oneTouch 200 300);
       TouchEnd {| touches := [] |}]
  = handleTouchEnd pinched.
Proof.
  exact (moves_ignored_after_touch_end
           (run initialMascot
              [TouchStart (twoTouches 0 0 30 40);
               TouchMove (twoTouches 0 0 45 60)])
           [TouchMove (oneTouch 10 10); TouchMove (oneTouch 200 300);
            TouchEnd {| touches := [] |}] eq_refl).
Defined.

(** ** Contact counts other than one and two *)

Lemma otherContactCount_step m a :
  otherContactCount a = true -> step m a = m.
Proof.
  destruct a as [e | e | e]; cbn [otherContactCount step]; try discriminate;
    intros H; apply andb_true_iff in H; destruct H as [H1 H2];
    apply negb_true_iff in H1, H2.
  - unfold handleTouchStart. rewrite H1, H2. reflexivity.
  - unfold handleTouchMove. rewrite H1, H2, !andb_false_r. reflexivity.
Qed.

(** X2.  Touch-starts and moves that carry no contact, or three and more,
    leave the whole overlay state as it is: no flag is set and nothing is
    moved or scaled. *)
Theorem other_contact_counts_ignored (m : Mascot) (acts : list TouchAction) :
  forallb otherContactCount acts = true ->
  run m acts = m.
Proof.
  induction acts as [| a acts IH]; intros H; [reflexivity |].
  cbn [forallb] in H. apply andb_true_iff in H. destruct H as [Ha H].
  rewrite run_cons, (otherContactCount_step _ _ Ha). apply IH, H.
Qed.

(** X2, witness: three fingers land and move during a drag. *)
Lemma other_contact_counts_ignored_witness :
  let three := {| touches := [touchAt 1 1; touchAt 2 2; touchAt 3 3] |} in
  let far := {| touches := [touchAt 9 9; touchAt 8 8; touchAt 7 7] |} in
  let dragging := step initialMascot (TouchStart (oneTouch 5 5)) in
  run dragging [TouchStart three; TouchMove far; TouchMove {| touches := [] |}]
  = dragging.
Proof.
  exact (other_contact_counts_ignored
           (step initialMascot (TouchStart (oneTouch 5 5)))
           [TouchStart {| touches := [touchAt 1 1; touchAt 2 2; touchAt 3 3] |};
            TouchMove {| touches := [touchAt 9 9; touchAt 8 8; touchAt 7 7] |};
            TouchMove {| touches := [] |}] eq_refl).
Defined.

(** ** A scale of zero

    Zero and NaN are read on the specification of the binary64 values. *)

Lemma falsy_spec a : (is_zero a || is_nan a) = sfFalsy (Prim2SF a).
Proof.
  unfold is_zero, is_nan. rewrite !eqb_spec.
  replace (Prim2SF zero) with (S754_zero false) by reflexivity.
  destruct (Prim2SF a) as [s | s | | s m e]; try reflexivity.
  - destruct s; reflexivity.
  - unfold SFeqb, SFcompare.
    rewrite Z.compare_refl, Pos.compare_cont_refl.
    destruct s; reflexivity.
Qed.

Lemma falsy_mul a b :
  truthy (Some a) = false -> truthy (Some (a * b)) = false.
Proof.
  unfold truthy. rewrite !negb_false_iff, !falsy_spec, mul_spec.
  unfold SF64mul.
  destruct (Prim2SF a) as [sa | sa | | sa ma ea]; try discriminate;
    destruct (Prim2SF b) as [sb | sb | | sb mb eb]; reflexivity.
Qed.

Lemma falsy_scale_step m a :
  truthy (Some (scale m)) = false -> truthy (Some (scale (step m a))) = false.
Proof.
  intros H. destruct a as [e | e | e]; cbn [step]; [| | exact H].
  - unfold handleTouchStart.
    destruct (length (touches e) =? 1)%nat; [destruct (touches e); exact H |].
    destruct (length (touches e) =? 2)%nat; exact H.
  - unfold handleTouchMove.
    destruct (isDragging m && (length (touches e) =? 1)%nat);
      [destruct (touches e); exact H |].
    destruct (isPinching m && (length (touches e) =? 2)%nat); [| exact H].
    destruct (truthy (initialDistance m)); [| exact H].
    cbn [scale]. apply falsy_mul, H.
Qed.

(** X3.  A scale that is zero (or NaN) stays zero or NaN through every
    later sequence of touch events: an overlay pinched down to nothing
    cannot be pinched back. *)
Theorem zero_scale_is_absorbing (m : Mascot) (acts : list TouchAction) :
  truthy (Some (scale m)) = false ->
  truthy (Some (scale (run m acts))) = false.
Proof.
  revert m. induction acts as [| a acts IH]; intros m H; [exact H |].
  rewrite run_cons. apply IH, falsy_scale_step, H.
Qed.

(** X3, witness: the contacts of a pinch coincide, then a fresh pinch
    spreads from 5px to 500px. *)
Lemma zero_scale_is_absorbing_witness :
  let collapsed :=
    run initialMascot
      [TouchStart (twoTouches 0 0 3 4); TouchMove (twoTouches 0 0 0 0);
       TouchEnd {| touches := [] |}] in
  truthy (Some (scale collapsed)) = false
  /\ truthy (Some (scale (run collapsed
                            [TouchStart (twoTouches 0 0 3 4);
                             TouchMove (twoTouches 0 0 300 400)]))) = false.
Proof.
  split; [reflexivity |].
  exact (zero_scale_is_absorbing
           (run initialMascot
              [TouchStart (twoTouches 0 0 3 4); TouchMove (twoTouches 0 0 0 0);
               TouchEnd {| touches := [] |}])
           [TouchStart (twoTouches 0 0 3 4);
            TouchMove (twoTouches 0 0 300 400)] eq_refl).
Defined.

(** ** The distance helper *)

(** X4.  [getDistance] is 0 when fewer than two contacts are given, looks
    at the first two contacts only, and is never below zero. *)
Theorem getDistance_edges (ts : list Touch) :
  ((length ts < 2)%nat -> getDistance ts = 0)
  /\ getDistance ts = getDistance (firstn 2 ts)
  /\ notNegative (getDistance ts) = true.
Proof.
  repeat split.
  - destruct ts as [| t1 [| t2 ts]]; cbn; intros H; try reflexivity; lia.
  - destruct ts as [| t1 [| t2 ts]]; reflexivity.
  - apply notNegative_getDistance.
Qed.

Lemma Prim2SF_inj a b : Prim2SF a = Prim2SF b -> a = b.
Proof.
  intros H. rewrite <- (SF2Prim_Prim2SF a), <- (SF2Prim_Prim2SF b), H.
  reflexivity.
Qed.

Lemma binary_round_opp m e :
  binary_round prec emax true m e = SFopp (binary_round prec emax false m e).
Proof.
  unfold binary_round.
  destruct (shl_align m e _) as [mz ez].
  unfold binary_round_aux.
  destruct (shr_fexp prec emax (Z.pos mz) ez loc_Exact) as [mrs e'].
  destruct (shr_fexp prec emax _ e' loc_Exact) as [mrs' e''].
  destruct (shr_m mrs'); try reflexivity.
  destruct (Z.leb _ _); reflexivity.
Qed.

Lemma binary_normalize_opp d e :
  binary_normalize prec emax (- d) e false =
  match d with
  | Z0 => S754_zero false
  | _ => SFopp (binary_normalize prec emax d e false)
  end.
Proof.
  destruct d as [| m | m]; cbn [Z.opp binary_normalize]; try reflexivity.
  - apply binary_round_opp.
  - rewrite binary_round_opp.
    destruct (binary_round prec emax false m e) as [[|] | [|] | | [|] ? ?];
      reflexivity.
Qed.

(** Swapping the operands of a subtraction changes the sign of the result,
    unless the result is a zero. *)
Lemma SFsub_swap u v :
  SFsub prec emax v u = SFopp (SFsub prec emax u v) \/
  bothZero (SFsub prec emax u v) (SFsub prec emax v u).
Proof.
  destruct u as [su | su | | su mu eu], v as [sv | sv | | sv mv ev];
    try (left; destruct su; reflexivity);
    try (left; destruct sv; reflexivity);
    try (left; destruct su, sv; reflexivity);
    try (left; reflexivity).
  - destruct su, sv; cbn; try (left; reflexivity);
      right; eexists; eexists; split; reflexivity.
  - cbn [SFsub]. rewrite (Z.min_comm ev eu).
    set (ez := Z.min eu ev).
    set (a := cond_Zopp su (Z.pos (fst (shl_align mu eu ez)))).
    set (b := cond_Zopp sv (Z.pos (fst (shl_align mv ev ez)))).
    replace (b - a)%Z with (- (a - b))%Z by lia.
    rewrite binary_normalize_opp.
    destruct (a - b)%Z eqn:E.
    + right. exists false, false. split; reflexivity.
    + left. reflexivity.
    + left. reflexivity.
Qed.

Lemma SFmul_square_opp u :
  SFmul prec emax (SFopp u) (SFopp u) = SFmul prec emax u u.
Proof. destruct u as [[|] | [|] | | [|] m e]; reflexivity. Qed.

Lemma pow2_sub_swap a b : pow2 (a - b) = pow2 (b - a).
Proof.
  apply Prim2SF_inj. unfold pow2. rewrite !mul_spec, !sub_spec.
  unfold SF64mul, SF64sub.
  destruct (SFsub_swap (Prim2SF b) (Prim2SF a)) as [H | (s & s' & H1 & H2)].
  - rewrite H. apply SFmul_square_opp.
  - rewrite H1, H2. destruct s, s'; reflexivity.
Qed.

(** X5.  The distance does not depend on the order in which the two
    contacts are listed: it is the same binary64 number either way. *)
Theorem getDistance_symmetric (touch1 touch2 : Touch) (rest : list Touch) :
  getDistance (touch1 :: touch2 :: rest) = getDistance (touch2 :: touch1 :: rest).
Proof.
  unfold getDistance. cbn [nth_error].
  rewrite (pow2_sub_swap (clientX touch2) (clientX touch1)),
          (pow2_sub_swap (clientY touch2) (clientY touch1)).
  reflexivity.
Qed.

(** ** Two moves handled by the same render *)

(** X6.  [handleTouchMove] measures the drag delta from the baseline of the
    render that created it.  When two single-touch moves are handled by the
    handler of one render (the second updater applied to the result of the
    first), both deltas are measured from that render's baseline: the first
    delta is counted twice over what the two moves handled by successive
    renders give. *)
Theorem same_render_moves_share_baseline (mascot : Mascot) (t1 t2 : Touch) :
  isDragging mascot = true ->
  let e1 := {| touches := [t1] |} in
  let e2 := {| touches := [t2] |} in
  let batched := handleTouchMove mascot e2 (handleTouchMove mascot e1 mascot) in
  let sequential := run mascot [TouchMove e1; TouchMove e2] in
  x (position batched) =
    x (position mascot) + (clientX t1 - x (lastPosition mascot))
                        + (clientX t2 - x (lastPosition mascot))
  /\ y (position batched) =
    y (position mascot) + (clientY t1 - y (lastPosition mascot))
                        + (clientY t2 - y (lastPosition mascot))
  /\ x (position sequential) =
    x (position mascot) + (clientX t1 - x (lastPosition mascot))
                        + (clientX t2 - clientX t1)
  /\ lastPosition batched = lastPosition sequential.
Proof.
  intros Hd. cbn zeta. unfold run. cbn [fold_left].
  rewrite (drag_move mascot t1 Hd).
  match goal with |- context [step ?s (TouchMove {| touches := [t2] |})] =>
    rewrite (drag_move s t2 eq_refl) end.
  unfold handleTouchMove. cbn [touches length Nat.eqb]. rewrite Hd.
  cbn [andb position lastPosition x y]. repeat split.
Qed.

(** X6, witness: a drag based at 0 with moves to 10 and to 20 ends at
    50 + 30 when one render handles both, and at 50 + 20 otherwise. *)
Lemma same_render_moves_share_baseline_witness :
  let dragging := step initialMascot (TouchStart (oneTouch 0 0)) in
  let e1 := oneTouch 10 0 in
  let e2 := oneTouch 20 0 in
  x (position (handleTouchMove dragging e2 (handleTouchMove dragging e1 dragging)))
  = 80
  /\ x (position (run dragging [TouchMove e1; TouchMove e2])) = 70.
Proof.
  pose proof (same_render_moves_share_baseline
                (step initialMascot (TouchStart (oneTouch 0 0)))
                (touchAt 10 0) (touchAt 20 0) eq_refl) as H.
  cbn zeta in H. destruct H as (Hb & _ & Hs & _).
  split; [exact Hb | exact Hs].
Defined.

(** * Further properties of the page *)

Section Screens.

Variable encodePng : Canvas -> string.

Lemma handle_touch_captured p refs a :
  capturedImage (handle encodePng p (refs, OnTouch a)) = capturedImage p.
Proof. destruct a; reflexivity. Qed.

Lemma dispatch_permission p ev :
  permissionGranted (dispatch encodePng p ev) = permissionGranted p.
Proof.
  unfold dispatch. destruct (offered p (snd ev)); [| reflexivity].
  apply handle_permission.
Qed.

(** Without a grant and without a captured image the page stays without
    one: the capture button is disabled and the preview buttons are not
    rendered. *)
Lemma dispatch_without_grant p ev :
  permissionGranted p <> Some true -> capturedImage p = None ->
  capturedImage (dispatch encodePng p ev) = None.
Proof.
  intros Hg Hc. unfold dispatch, offered, render, cameraScreen. rewrite Hc.
  destruct ev as [refs [a | | |]]; cbn [snd].
  - rewrite handle_touch_captured. exact Hc.
  - destruct (permissionGranted p) as [[|] |]; cbn [negb];
      [now elim Hg | exact Hc | exact Hc].
  - exact Hc.
  - exact Hc.
Qed.

Lemma session_without_grant evs : forall p,
  permissionGranted p <> Some true -> capturedImage p = None ->
  capturedImage (session encodePng p evs) = None.
Proof.
  induction evs as [| ev evs IH]; intros p Hg Hc; [exact Hc |].
  cbn [session fold_left].
  fold (session encodePng (dispatch encodePng p ev) evs).
  apply IH.
  - rewrite dispatch_permission. exact Hg.
  - apply dispatch_without_grant; assumption.
Qed.

Lemma session_permission evs : forall p,
  permissionGranted (session encodePng p evs) = permissionGranted p.
Proof.
  induction evs as [| ev evs IH]; intros p; [reflexivity |].
  cbn [session fold_left].
  fold (session encodePng (dispatch encodePng p ev) evs).
  rewrite IH. apply dispatch_permission.
Qed.

(** X7.  With the events the rendered page offers, no image is captured
    before the camera set-up has ended, and none afterwards unless the
    stream was acquired: the capture button is disabled while the permission
    is pending or denied. *)
Theorem no_capture_without_permission (navigator : Navigator) (refs : Refs)
    (before after : list (Refs * UIEvent)) :
  let p0 := session encodePng initialPage before in
  let p1 := cameraSetupDone navigator refs p0 in
  let p2 := session encodePng p1 after in
  capturedImage p0 = None
  /\ capturedImage p1 = None
  /\ (capturedImage p2 = None \/ acquired navigator = true).
Proof.
  cbn zeta.
  assert (H0 : capturedImage (session encodePng initialPage before) = None)
    by (apply session_without_grant; [discriminate | reflexivity]).
  assert (H1 : capturedImage
                 (cameraSetupDone navigator refs
                    (session encodePng initialPage before)) = None)
    by (rewrite cameraSetupDone_captured; exact H0).
  repeat split; try assumption.
  destruct (acquired navigator) eqn:Ha; [right; reflexivity | left].
  apply session_without_grant; [| exact H1].
  rewrite cameraSetupDone_permission, Ha. discriminate.
Qed.

(** X8.  On the preview screen no event changes the overlay or the
    permission, and only retake changes the page: it clears the captured
    image.  On the camera screen the permission is never changed, and the
    captured image changes only through the capture button while it is
    enabled, which leaves the overlay as it is. *)
Theorem screen_transitions (p : Page) (ev : Refs * UIEvent) :
  let p' := dispatch encodePng p ev in
  match render p with
  | Preview _ =>
      mascot p' = mascot p
      /\ permissionGranted p' = permissionGranted p
      /\ (p' = p \/ (snd ev = OnBackToCamera /\ capturedImage p' = None))
  | Camera _ _ captureDisabled =>
      permissionGranted p' = permissionGranted p
      /\ (capturedImage p' = capturedImage p
          \/ (snd ev = OnCapture /\ captureDisabled = false
              /\ mascot p' = mascot p))
  end.
Proof.
  cbn zeta. pose proof (dispatch_permission p ev) as Hperm.
  unfold dispatch, offered in *.
  destruct (render p) as [src | denied starting disabled] eqn:Hr;
    destruct ev as [refs [a | | |]]; cbn [snd] in *.
  - auto.
  - auto.
  - unfold handle. cbn [snd]. unfold handleDownload.
    destruct (truthyString (capturedImage p)); [| auto].
    destruct (capturedImage p); auto.
  - unfold handle. cbn [snd]. repeat split; auto.
  - split; [exact Hperm |]. left. apply handle_touch_captured.
  - split; [exact Hperm |].
    destruct disabled; cbn [negb] in *; [left; reflexivity |].
    right. repeat split. unfold handle. cbn [snd fst].
    apply handleCapture_keeps.
  - auto.
  - auto.
Qed.

(** ** Capture and download together *)

(** X10.  A capture with the surfaces mounted and a 2D context, followed by
    a download, saves the data URL of the canvas just drawn under the name
    [mascot-photo.png]: the link is created, given that URL and that name,
    appended, clicked and removed. *)
Theorem capture_then_download_saves_capture (video : Video) (image : Image)
    (canvas : Canvas) (p : Page) :
  context2d canvas = true ->
  let captured := snd (handleCapture encodePng (mounted video image canvas) p) in
  handleDownload captured =
  (captured,
   [CreateLink;
    SetHref (toDataURL encodePng (capturedCanvas video image (mascot p)));
    SetDownload "mascot-photo.png"; AppendChild; Click; RemoveChild]).
Proof.
  intros Hc. cbn zeta. rewrite (handleCapture_mounted _ _ _ _ _ Hc).
  cbn [snd]. unfold handleDownload.
  cbn [setCapturedImage capturedImage truthyString].
  rewrite toDataURL_not_empty. reflexivity.
Qed.

(** X11.  Capturing again on the refs and the page a capture has left
    changes nothing: the canvas is cleared when its dimensions are assigned,
    so draw calls do not pile up, and the same image is stored. *)
Theorem capture_is_idempotent (refs : Refs) (p : Page) :
  let once := handleCapture encodePng refs p in
  handleCapture encodePng (fst once) (snd once) = once.
Proof.
  cbn zeta. unfold handleCapture.
  destruct (videoRef refs) as [video |] eqn:Hv;
    [| cbn [fst snd]; rewrite Hv; reflexivity].
  destruct (imageRef refs) as [image |] eqn:Hi;
    [| cbn [fst snd]; rewrite Hv, Hi; reflexivity].
  destruct (canvasRef refs) as [canvas |] eqn:Hc;
    [| cbn [fst snd]; rewrite Hv, Hi, Hc; reflexivity].
  unfold drawImage, setHeight, setWidth.
  cbn [context2d canvasWidth canvasHeight drawn app].
  destruct (context2d canvas) eqn:Hx;
    cbn [fst snd videoRef imageRef canvasRef context2d canvasWidth
         canvasHeight drawn app mascot setCapturedImage];
    rewrite ?Hx; reflexivity.
Qed.

End Screens.

(** * Further properties of the camera set-up *)

Ltac in_cases :=
  repeat match goal with
  | H : In _ (_ :: _) |- _ => destruct H as [H | H]
  | H : In _ [] |- _ => destruct H
  end.

(** X12.  On every path [setupCamera] ends with its one call of
    [setPermissionGranted]; it reports an error exactly when it denies the
    permission, keeps the stream for the clean-up exactly when the request
    was fulfilled, and binds the stream to the video exactly when the
    request was fulfilled and the video is mounted: a stream acquired while
    the video is not mounted is granted and kept but shown nowhere. *)
Theorem setupCamera_calls (navigator : Navigator) (refs : Refs) :
  let calls := setupCamera navigator refs in
  (exists front,
     calls = front ++ [SetPermissionGranted (acquired navigator)]
     /\ permissionWrites front = [])
  /\ ((exists what, In (ConsoleError what) calls) <-> acquired navigator = false)
  /\ (forall stream,
        In (KeepStream stream) calls <->
        request navigator = Some (Fulfilled stream))
  /\ (forall stream,
        In (SetSrcObject stream) calls <->
        request navigator = Some (Fulfilled stream) /\ videoRef refs <> None).
Proof.
  cbn zeta. unfold setupCamera, acquired.
  destruct (request navigator) as [[s | err] |];
    destruct (videoRef refs) as [video |]; cbn [app];
    (split;
     [ match goal with |- exists front, ?calls = _ /\ _ =>
         exists (removelast calls) end; split; reflexivity
     | split;
       [ split;
         [ intros [what H]; in_cases; (discriminate || reflexivity)
         | intros H; (discriminate || (eexists; cbn; eauto)) ]
       | split;
         [ intros stream; split;
           [ intros H; in_cases; (discriminate || congruence)
           | intros H; (discriminate || (injection H as <-; cbn; auto)) ]
         | intros stream; split;
           [ intros H; in_cases; try discriminate;
             (split; (congruence || discriminate))
           | intros [H Hn]; try discriminate; try (now elim Hn);
             injection H as <-; cbn; auto ] ] ] ]).
Qed.

(** ** Releasing the stream *)

Section Release.

Variable getTracks : nat -> list nat.

Lemma keptStream_setupCamera navigator refs :
  keptStream (setupCamera navigator refs) None =
  match request navigator with
  | Some (Fulfilled stream) => Some stream
  | _ => None
  end.
Proof.
  unfold setupCamera.
  destruct (request navigator) as [[stream | err] |]; try reflexivity.
  destruct (videoRef refs); reflexivity.
Qed.

(** X9.  When the component unmounts after the request has settled, the
    clean-up stops every track of the acquired stream, in order, and stops
    nothing when no stream was acquired.  When it unmounts before the request
    settles, the clean-up finds the variable still empty and stops nothing;
    a stream acquired afterwards is kept in the variable and its tracks are
    never stopped. *)
Theorem tracks_stopped_only_if_settled_before_unmount (navigator : Navigator)
    (refs : Refs) :
  let acquiredStream :=
    match request navigator with
    | Some (Fulfilled stream) => Some stream
    | _ => None
    end in
  runEffect getTracks navigator refs [Settles; Unmounts] =
    (acquiredStream,
     match acquiredStream with
     | Some stream => map StopTrack (getTracks stream)
     | None => []
     end)
  /\ runEffect getTracks navigator refs [Unmounts; Settles] = (acquiredStream, [])
  /\ runEffect getTracks navigator refs [Unmounts] = (None, []).
Proof.
  cbn zeta. unfold runEffect. cbn [fold_left effectStep fst snd app cleanup].
  rewrite keptStream_setupCamera.
  destruct (request navigator) as [[stream | err] |]; repeat split.
Qed.

End Release.

(** X10, witness: capture on the sample surfaces, then download. *)
Lemma capture_then_download_saves_capture_witness :
  let captured :=
    snd (handleCapture samplePng (mounted sampleVideo sampleImage freshCanvas)
           initialPage) in
  handleDownload captured =
  (captured,
   [CreateLink;
    SetHref "data:image/png;base64,iVBORw0KGgo=";
    SetDownload "mascot-photo.png"; AppendChild; Click; RemoveChild]).
Proof.
  exact (capture_then_download_saves_capture samplePng sampleVideo sampleImage
           freshCanvas initialPage eq_refl).
Defined.

(** * The guard and the divisor of the scale update

    The guard of the pinch branch reads [mascot.initialDistance], the
    baseline of the render that created the handler; the division uses
    [prev.initialDistance!], the baseline of the state the updater is applied
    to.  They are the same number only when the handler's render is the
    render of that state. *)

(** C5 (the code breaks it).  A pinch is under way with the contacts 5px
    apart, and one render handles two two-touch moves.  The first brings the
    contacts onto one point: the stored scale and the stored baseline become
    0.  The second spreads them to 5px: the stored baseline is zero, yet the
    guard passes, because it reads the render's baseline 5; the update
    divides 5 by 0 and changes the scale from 0 to NaN.  Handled by the
    render of the stored state, the same move is skipped. *)
Theorem stale_guard_divides_by_zero :
  let mascot := step initialMascot (TouchStart (twoTouches 0 0 3 4)) in
  let together := twoTouches 0 0 0 0 in
  let apart := twoTouches 0 0 3 4 in
  let prev := handleTouchMove mascot together mascot in
  let next := handleTouchMove mascot apart prev in
  initialDistance mascot = Some 5
  /\ initialDistance prev = Some 0
  /\ scale prev = 0
  /\ getDistance (touches apart) / toNumber (initialDistance prev) = infinity
  /\ is_nan (scale next) = true
  /\ (scale next =? scale prev) = false
  /\ step prev (TouchMove apart) = prev.
Proof. vm_compute. repeat split. Qed.

(** X15.  Whenever the guard passes, the scale is multiplied by the new
    distance over the baseline of the pending state, whatever that baseline
    is: an absent one counts as 0. *)
Theorem pinch_divisor_is_pending_baseline (mascot prev : Mascot)
    (e : TouchEvent) :
  length (touches e) = 2%nat ->
  isPinching mascot = true ->
  truthy (initialDistance mascot) = true ->
  scale (handleTouchMove mascot e prev) =
    scale prev * (getDistance (touches e) / toNumber (initialDistance prev))
  /\ initialDistance (handleTouchMove mascot e prev) =
     Some (getDistance (touches e)).
Proof.
  intros Hl Hp Ht. unfold handleTouchMove.
  rewrite Hl, Hp, Ht. cbn [Nat.eqb andb]. rewrite andb_false_r.
  split; reflexivity.
Qed.

(** X15, witness: the render's baseline is 5, the pending one is absent (a
    touch-end was applied): the scale 0.5 becomes 0.5 * (5 / 0). *)
Lemma pinch_divisor_is_pending_baseline_witness :
  let mascot := step initialMascot (TouchStart (twoTouches 0 0 3 4)) in
  let prev := handleTouchEnd mascot in
  scale (handleTouchMove mascot (twoTouches 0 0 3 4) prev) = 0.5 * (5 / 0)
  /\ initialDistance (handleTouchMove mascot (twoTouches 0 0 3 4) prev) = Some 5.
Proof.
  exact (pinch_divisor_is_pending_baseline
           (step initialMascot (TouchStart (twoTouches 0 0 3 4)))
           (handleTouchEnd (step initialMascot (TouchStart (twoTouches 0 0 3 4))))
           (twoTouches 0 0 3 4) eq_refl eq_refl eq_refl).
Defined.

(** * The video element through capture and retake *)

Section VideoStream.

Variable encodePng : Canvas -> string.

Lemma afterRender_keeps_no_stream before after v :
  hasStream v = false -> hasStream (afterRender before after v) = false.
Proof.
  intros H. unfold afterRender.
  destruct (render after); [reflexivity |].
  destruct (render before); [reflexivity | exact H].
Qed.

Lemma mountedRun_keeps_no_stream evs : forall st,
  hasStream (snd st) = false ->
  hasStream (snd (mountedRun encodePng st evs)) = false.
Proof.
  induction evs as [| ev evs IH]; intros st H; [exact H |].
  cbn [mountedRun fold_left].
  fold (mountedRun encodePng (mountedStep encodePng st ev) evs).
  apply IH. unfold mountedStep. cbn [snd].
  apply afterRender_keeps_no_stream, H.
Qed.

(** X16.  An event after which the preview screen is rendered removes the
    video element, and through every later sequence of events the video
    element, when there is one, has no stream: no handler assigns
    [srcObject], so the camera picture does not come back after a
    retake. *)
Theorem video_has_no_stream_after_preview (st : Page * VideoElement)
    (ev : Refs * UIEvent) (evs : list (Refs * UIEvent)) :
  let st1 := mountedStep encodePng st ev in
  match render (fst st1) with
  | Preview _ =>
      snd st1 = NoVideo
      /\ hasStream (snd (mountedRun encodePng st1 evs)) = false
  | Camera _ _ _ => True
  end.
Proof.
  cbn zeta.
  destruct (render (fst (mountedStep encodePng st ev))) eqn:Hr; [| exact I].
  assert (Hv : snd (mountedStep encodePng st ev) = NoVideo).
  { unfold mountedStep in *. cbn [fst snd] in *. unfold afterRender.
    rewrite Hr. reflexivity. }
  split; [exact Hv |].
  apply mountedRun_keeps_no_stream. rewrite Hv. reflexivity.
Qed.

End VideoStream.

(** C8 (the code breaks the round trip).  The camera is granted with
    stream 1 and the video shows it.  A capture stores an image and the
    preview screen replaces the camera screen; retake gives back the page
    state exactly as it was before the capture, with the capture button
    enabled, on a new video element that has no stream: the second capture
    is not of the frame the first one saw. *)
Theorem retake_remounts_video_without_stream :
  let refs := mounted sampleVideo sampleImage freshCanvas in
  let granted := mountedSetup grantingNavigator refs mountedPage in
  let captured := mountedStep samplePng granted (refs, OnCapture) in
  let back := mountedStep samplePng captured (noRefs, OnBackToCamera) in
  snd granted = VideoWith (Some 1%nat)
  /\ render (fst captured) = Preview "data:image/png;base64,iVBORw0KGgo="
  /\ snd captured = NoVideo
  /\ fst back = fst granted
  /\ offered (fst back) OnCapture = true
  /\ snd back = VideoWith None.
Proof. vm_compute. repeat split. Qed.
